(** * Shallow embedding of the instrument-cluster display driver (ic_display.h)

    The repository ships the declaration of [IC_DISPLAY] and the glyph-width
    table [CHAR_WIDTHS]; the method bodies (ic_display.cpp) are not part of the
    sources.  The table, the constants, the enumerations and the class layout are
    translated from the header; each method body is modelled from the spec and
    says so in its doc comment. *)

From Stdlib Require Import String Ascii List Arith Lia Bool.
Import ListNotations.
Open Scope nat_scope.

(** ** Constants of ic_display.h *)

(** [#define SEND_CAN_ID 0x1A4]: CAN ID of the AGW talking to the IC display. *)
Definition SEND_CAN_ID : nat := 0x1A4.

(** [#define RECEIVE_CAN_ID 0x1D0]: CAN ID of the IC display back to the AGW. *)
Definition RECEIVE_CAN_ID : nat := 0x1D0.

(** [#define DISPLAY_WIDTH_PX 56] *)
Definition DISPLAY_WIDTH_PX : nat := 56.

(** [enum PAGE { AUDIO = 0x03, TELEPHONE = 0x05, OTHER = 0x00 }] *)
Inductive PAGE := AUDIO | TELEPHONE | OTHER.

Definition page_code (p : PAGE) : nat :=
  match p with AUDIO => 0x03 | TELEPHONE => 0x05 | OTHER => 0x00 end.

Definition PAGE_eqb (p q : PAGE) : bool := page_code p =? page_code q.

(** [enum IC_SYMBOL] *)
Inductive IC_SYMBOL :=
  NONE | SKIP_TRACK | PREV_TRACK | FAST_FWD | FAST_REV | PLAY | REWIND
| UP_ARROW | DOWN_ARROW.

Definition symbol_code (s : IC_SYMBOL) : nat :=
  match s with
  | NONE => 0x00 | SKIP_TRACK => 0x01 | PREV_TRACK => 0x02 | FAST_FWD => 0x03
  | FAST_REV => 0x04 | PLAY => 0x05 | REWIND => 0x06 | UP_ARROW => 0x09
  | DOWN_ARROW => 0x0A
  end.

(** [const uint8_t CHAR_WIDTHS[256] PROGMEM], row by row as in the header. *)
Definition CHAR_WIDTHS : list nat := [
    0; 0; 0; 0; 0; 0; 0; 0;
    0; 0; 0; 7; 6; 0; 0; 0;
    0; 6; 6; 6; 7; 7; 3; 2;
    7; 7; 0; 0;10;10; 6; 6;
    6; 3; 4; 6; 6; 6; 6; 2;
    5; 5; 6; 6; 3; 5; 2; 6;
    7; 7; 7; 7; 7; 7; 7; 7;
    7; 7; 3; 4; 5; 6; 5; 6;

    6; 7; 7; 7; 7; 6; 6; 7;
    7; 3; 5; 7; 6; 7; 0; 0;
    7; 7; 7; 7; 7; 7; 7;11;
    7; 7; 7; 4; 6; 4; 3; 6;
    3; 6; 6; 6; 6; 7; 6; 8;
    6; 3; 5; 6; 3; 9; 7; 7;
    6; 6; 6; 6; 5; 7; 7; 9;
    7; 6; 6; 6; 2; 6;99; 0;

    7; 6; 8; 9; 6; 6; 6; 6;
    7; 6; 0; 0; 0; 0; 0; 0;
    0; 0; 0; 0; 0; 0; 0; 0;
    0; 0; 0; 0; 0; 0; 0; 0;
    0; 0; 0; 0; 0; 0; 0; 0;
    0; 0; 0; 0; 0; 0; 0; 0;
    0; 0; 0; 0; 0; 0; 0; 0;
    0; 0; 0; 0; 0; 0; 0; 0;

    0; 0; 0; 0; 0; 0; 0; 0;
    0; 0; 0; 0; 0; 0; 0; 0;
    0; 0; 0; 0; 0; 0; 0; 0;
    0; 0; 0; 0; 0; 0; 0; 0;
    0; 0; 0; 0; 0; 0; 0; 0;
    0; 0; 0; 0; 0; 0; 0; 0;
    0; 0; 0; 0; 0; 0; 0; 0;
    0; 0; 0; 0; 0; 0; 0; 0
].

(** [pgm_read_byte(&CHAR_WIDTHS[c])] for a character code [c]. *)
Definition widthOf (c : nat) : nat := nth c CHAR_WIDTHS 0.

(** The table value marking the glyph that crashes the IC. *)
Definition CRASH_WIDTH : nat := 99.

Definition is_crash_glyph (c : nat) : bool := widthOf c =? CRASH_WIDTH.

(** A [const char*] argument: the character codes before the terminating NUL. *)
Fixpoint cstr_bytes (s : string) : list nat :=
  match s with
  | EmptyString => []
  | String a r =>
      let c := nat_of_ascii a in
      if c =? 0 then [] else c :: cstr_bytes r
  end.

(** Modelled from the spec: the body of [IC_DISPLAY::can_fit_body_text]
    (ic_display.cpp is not in the sources).  Spec 4.1: accumulate
    [widthOf(c)+1] over every character of [text] and compare the total with
    [DISPLAY_WIDTH_PX]. *)
Fixpoint text_width_from (acc : nat) (cs : list nat) : nat :=
  match cs with
  | [] => acc
  | c :: r => text_width_from (acc + (widthOf c + 1)) r
  end.

Definition can_fit_body_text (text : string) : bool :=
  text_width_from 0 (cstr_bytes text) <=? DISPLAY_WIDTH_PX.

(** Pixel sum of a character sequence, written as a plain sum (spec 4.1). *)
Fixpoint pixel_sum (cs : list nat) : nat :=
  match cs with
  | [] => 0
  | c :: r => (widthOf c + 1) + pixel_sum r
  end.

(** ** Bus frames and the multi-frame segmenter *)

(** [can_frame] as used by the class: identifier, DLC and data bytes. *)
Record can_frame := mk_frame {
  can_id : nat;
  can_dlc : nat;
  data : list nat
}.

(** Pad a frame's data to the fixed 8 bytes of a CAN frame. *)
Definition pad8 (l : list nat) : list nat := l ++ repeat 0 (8 - length l).

Definition out_frame (l : list nat) : can_frame :=
  mk_frame SEND_CAN_ID 8 (pad8 l).

(** ISO 15765-2 protocol control bytes used by the segmenter. *)
Definition FIRST_FRAME : nat := 0x10.
Definition CONSECUTIVE_FRAME : nat := 0x20.

(** Modelled from the spec: the body of [IC_DISPLAY::sendBytes]
    (ic_display.cpp is not in the sources).  Spec 4.3: a first frame with
    the frame type and the total length followed by up to 6 payload bytes,
    then consecutive frames with a sequence nibble followed by up to 7
    payload bytes, at most 7 of them (8 frames in total).  The pre/post
    delays are timing only and not modelled. *)
Definition first_frame (payload : list nat) : can_frame :=
  out_frame (FIRST_FRAME :: length payload :: firstn 6 payload).

Fixpoint consecutive_frames (budget seq : nat) (rest : list nat)
  : list can_frame :=
  match budget, rest with
  | 0, _ => []
  | _, [] => []
  | S b, _ =>
      out_frame (CONSECUTIVE_FRAME + seq mod 16 :: firstn 7 rest)
        :: consecutive_frames b (S seq) (skipn 7 rest)
  end.

Definition sendBytes (payload : list nat) : list can_frame :=
  first_frame payload :: consecutive_frames 7 1 (skipn 6 payload).

(** A receiver that reassembles the payload from the frames of one
    transfer, in frame order, checking the sequence nibbles. *)
Fixpoint collect_consecutive (seq : nat) (frames : list can_frame)
  : option (list nat) :=
  match frames with
  | [] => Some []
  | f :: fs =>
      match data f with
      | h :: d =>
          if h =? CONSECUTIVE_FRAME + seq mod 16 then
            match collect_consecutive (S seq) fs with
            | Some r => Some (firstn 7 d ++ r)
            | None => None
            end
          else None
      | [] => None
      end
  end.

Definition reassemble (frames : list can_frame) : option (list nat) :=
  match frames with
  | [] => None
  | ff :: cfs =>
      match data ff with
      | h :: len :: d =>
          if h =? FIRST_FRAME then
            match collect_consecutive 1 cfs with
            | Some r => Some (firstn len (firstn 6 d ++ r))
            | None => None
            end
          else None
      | _ => None
      end
  end.

(** ** The [IC_DISPLAY] object *)

(** The fields the claims depend on: the static [current_page], the payload
    [buffer] (the bytes placed in it) with [buffer_size], and the frames
    handed to the CAN communicator so far. *)
Record IC := mk_ic {
  current_page : PAGE;
  buffer : list nat;
  buffer_size : nat;
  sent : list can_frame
}.

Definition IC_init (p : PAGE) : IC := mk_ic p [] 0 [].

Inductive encode_error := TooLong | CrashGlyph | WrongPage.

Inductive result := Sent | Rejected (e : encode_error).

Definition MAX_PAYLOAD : nat := 55.

Definition centering_flag (b : bool) : nat := if b then 1 else 0.

(** Package numbers named in the header's doc comments. *)
Definition PKG_INIT : nat := 0x24.
Definition PKG_BODY : nat := 0x26.
Definition PKG_HEADER : nat := 0x29.

Definition has_crash_glyph (s : string) : bool :=
  existsb is_crash_glyph (cstr_bytes s).

Section Encoder.

(** [IC_DISPLAY::getChecksum(len, payload)]: the rule is an external
    protocol fact (spec 9), so it is a parameter of the encoder. *)
Variable getChecksum : nat -> list nat -> nat.

Definition with_checksum (content : list nat) : list nat :=
  content ++ [getChecksum (length content) content].

(** Modelled from the spec: place a package in [buffer], set [buffer_size]
    and hand the payload to [sendBytes]; a payload over 55 bytes is
    rejected before anything is sent (spec 4.2, 7). *)
Definition transmit (st : IC) (payload : list nat) : IC * result :=
  if MAX_PAYLOAD <? length payload then (st, Rejected TooLong)
  else (mk_ic (current_page st) payload (length payload)
          (sent st ++ sendBytes payload), Sent).

(** Modelled from the spec: [IC_DISPLAY::setHeader] (package 29). *)
Definition setHeader (st : IC) (p : PAGE) (text : string) (should_center : bool)
  : IC * result :=
  if has_crash_glyph text then (st, Rejected CrashGlyph)
  else transmit st (with_checksum
         ([page_code p; PKG_HEADER; centering_flag should_center]
            ++ cstr_bytes text)).

(** Modelled from the spec: [IC_DISPLAY::setBody] (package 26). *)
Definition setBody (st : IC) (p : PAGE) (text : string) (should_center : bool)
  : IC * result :=
  if has_crash_glyph text then (st, Rejected CrashGlyph)
  else transmit st (with_checksum
         ([page_code p; PKG_BODY; centering_flag should_center]
            ++ cstr_bytes text)).

(** Modelled from the spec: [IC_DISPLAY::setBodyTel].  The declaration has
    no page argument; the package targets the page the object believes
    active and is rejected unless that page is the Telephone page
    (spec 4.2, 8).  Each line is sent after its length. *)
Definition setBodyTel (st : IC) (line1 line2 line3 line4 : string)
  : IC * result :=
  let lines := [line1; line2; line3; line4] in
  if existsb has_crash_glyph lines then (st, Rejected CrashGlyph)
  else if negb (PAGE_eqb (current_page st) TELEPHONE) then
    (st, Rejected WrongPage)
  else transmit st (with_checksum
         ([page_code TELEPHONE; PKG_BODY; length lines]
            ++ flat_map (fun l => length (cstr_bytes l) :: cstr_bytes l)
                 lines)).

(** Modelled from the spec: [IC_DISPLAY::initPage] (package 24). *)
Definition initPage (st : IC) (p : PAGE) (header : string) (should_center : bool)
  (upper_Symbol lower_Symbol : IC_SYMBOL) : IC * result :=
  if has_crash_glyph header then (st, Rejected CrashGlyph)
  else transmit st (with_checksum
         ([page_code p; PKG_INIT; centering_flag should_center;
           symbol_code upper_Symbol; symbol_code lower_Symbol]
            ++ cstr_bytes header)).

(** The four encode operations of the class, as one call type. *)
Inductive encode_call :=
| CallHeader (p : PAGE) (text : string) (c : bool)
| CallBody (p : PAGE) (text : string) (c : bool)
| CallBodyTel (l1 l2 l3 l4 : string)
| CallInit (p : PAGE) (header : string) (c : bool) (u l : IC_SYMBOL).

Definition run_call (st : IC) (call : encode_call) : IC * result :=
  match call with
  | CallHeader p t c => setHeader st p t c
  | CallBody p t c => setBody st p t c
  | CallBodyTel l1 l2 l3 l4 => setBodyTel st l1 l2 l3 l4
  | CallInit p h c u l => initPage st p h c u l
  end.

End Encoder.

Definition call_texts (call : encode_call) : list string :=
  match call with
  | CallHeader _ t _ | CallBody _ t _ => [t]
  | CallBodyTel l1 l2 l3 l4 => [l1; l2; l3; l4]
  | CallInit _ h _ _ _ => [h]
  end.

(** ** Display state tracker *)

Section Tracker.

(** Which page, if any, a frame from the IC authoritatively declares
    active; the frame layout is not given by the sources or the spec. *)
Variable declared_page : list nat -> option PAGE.

(** Modelled from the spec: [IC_DISPLAY::processIcResponse] (spec 4.4).
    A recognised page declaration on [RECEIVE_CAN_ID] overwrites
    [current_page]; anything else is ignored.  The method returns [void]. *)
Definition processIcResponse (st : IC) (r : can_frame) : IC :=
  if can_id r =? RECEIVE_CAN_ID then
    match declared_page (data r) with
    | Some p => mk_ic p (buffer st) (buffer_size st) (sent st)
    | None => st
    end
  else st.

End Tracker.

(** A run of encode calls with no incoming frame in between. *)
Fixpoint run_calls (getChecksum : nat -> list nat -> nat) (st : IC)
  (calls : list encode_call) : IC :=
  match calls with
  | [] => st
  | c :: cs => run_calls getChecksum (fst (run_call getChecksum st c)) cs
  end.

(** Modelled from the spec: the draining part of [IC_DISPLAY::update]
    (spec 5), each pending frame from the IC passed in order through
    [processIcResponse]. *)
Fixpoint process_frames (declared_page : list nat -> option PAGE) (st : IC)
  (rs : list can_frame) : IC :=
  match rs with
  | [] => st
  | r :: rs' => process_frames declared_page (processIcResponse declared_page st r) rs'
  end.

(** The page a single frame declares, as [processIcResponse] reads it. *)
Definition frame_page (declared_page : list nat -> option PAGE) (r : can_frame)
  : option PAGE :=
  if can_id r =? RECEIVE_CAN_ID then declared_page (data r) else None.

(** The page declared by the last frame of [rs] that declares one. *)
Fixpoint last_declared (declared_page : list nat -> option PAGE)
  (rs : list can_frame) : option PAGE :=
  match rs with
  | [] => None
  | r :: rs' =>
      match last_declared declared_page rs' with
      | Some p => Some p
      | None => frame_page declared_page r
      end
  end.

Definition is_digit (c : nat) : bool := (48 <=? c) && (c <=? 57).

(** ** Spec-side vocabulary used in the statements *)

(** Ceiling of [a / b], as the spec's [ceil((L-6)/7)]. *)
Definition ceil_div (a b : nat) : nat := (a + b - 1) / b.

(** The printable ASCII range 0x20..0x7E. *)
Definition is_printable (c : nat) : bool := (0x20 <=? c) && (c <=? 0x7E).

(** The invariant of the payload buffer (spec 3). *)
Definition buffer_ok (st : IC) : Prop :=
  buffer_size st = length (buffer st) /\ buffer_size st <= MAX_PAYLOAD.

(** ** Lemmas *)

Lemma text_width_from_sum (cs : list nat) (acc : nat) :
  text_width_from acc cs = acc + pixel_sum cs.
Proof.
  revert acc; induction cs as [|c r IH]; intros acc; simpl.
  - lia.
  - rewrite IH; lia.
Qed.

Lemma pixel_sum_In (cs : list nat) (c : nat) :
  In c cs -> widthOf c + 1 <= pixel_sum cs.
Proof.
  induction cs as [|d r IH]; simpl; [tauto|].
  intros [->|H]; [lia|specialize (IH H); lia].
Qed.

Lemma length_pad8 (l : list nat) : length l <= 8 -> length (pad8 l) = 8.
Proof.
  intros H; unfold pad8; rewrite length_app, repeat_length; lia.
Qed.

Lemma length_firstn_le (n : nat) (l : list nat) : length (firstn n l) <= n.
Proof. rewrite length_firstn; lia. Qed.

(** Dropping the frame type byte of a padded frame leaves the chunk and its
    zero padding. *)
Lemma pad8_cons (h : nat) (l : list nat) :
  pad8 (h :: l) = h :: (l ++ repeat 0 (7 - length l)).
Proof. reflexivity. Qed.

Lemma firstn_pad (n : nat) (l : list nat) :
  length l <= n -> firstn n (l ++ repeat 0 (n - length l)) = l ++ repeat 0 (n - length l).
Proof.
  intros H; apply firstn_all2; rewrite length_app, repeat_length; lia.
Qed.

Lemma split_pad (n k : nat) (l pad : list nat) :
  k = 0 \/ length l <= n ->
  firstn n l ++ repeat 0 k ++ skipn n l ++ pad = l ++ repeat 0 k ++ pad.
Proof.
  intros [->|H]; simpl.
  - rewrite app_assoc, firstn_skipn; reflexivity.
  - rewrite firstn_all2 by lia; rewrite skipn_all2 by lia; reflexivity.
Qed.

Lemma collect_consecutive_frames (b s : nat) (rest : list nat) :
  length rest <= 7 * b ->
  exists pad, collect_consecutive s (consecutive_frames b s rest) = Some (rest ++ pad).
Proof.
  revert s rest; induction b as [|b IH]; intros s rest Hlen.
  - destruct rest; simpl in *; [exists []; reflexivity | lia].
  - destruct rest as [|a r]; [exists []; reflexivity|].
    destruct (IH (S s) (skipn 7 (a :: r))) as [pad Hpad].
    { rewrite length_skipn; simpl in *; lia. }
    cbn [consecutive_frames collect_consecutive out_frame data].
    rewrite pad8_cons, Nat.eqb_refl, Hpad.
    rewrite firstn_pad by apply length_firstn_le.
    exists (repeat 0 (7 - length (firstn 7 (a :: r))) ++ pad).
    rewrite <- app_assoc, split_pad; [reflexivity|].
    rewrite length_firstn; lia.
Qed.

Lemma div7_step (n : nat) : 1 <= n -> (n + 6) / 7 = S ((n - 7 + 6) / 7).
Proof.
  intros H.
  destruct (Nat.lt_ge_cases n 7) as [Hlt|Hge].
  - replace (n - 7 + 6) with 6 by lia.
    change (6 / 7) with 0.
    symmetry; apply (Nat.div_unique _ _ _ (n - 1)); lia.
  - replace (n + 6) with ((n - 7 + 6) + 1 * 7) by lia.
    rewrite Nat.div_add by lia; lia.
Qed.

Lemma length_consecutive_frames (b s : nat) (rest : list nat) :
  length (consecutive_frames b s rest) = Nat.min b ((length rest + 6) / 7).
Proof.
  revert s rest; induction b as [|b IH]; intros s rest; [reflexivity|].
  destruct rest as [|a r]; [reflexivity|].
  pose proof (div7_step (length (a :: r))) as Hs.
  cbn [consecutive_frames]; rewrite length_cons, IH, length_skipn.
  simpl length in *; rewrite Hs by lia; reflexivity.
Qed.

Lemma consecutive_frames_shape (b s : nat) (rest : list nat) :
  Forall (fun f => can_id f = SEND_CAN_ID /\ length (data f) = 8)
    (consecutive_frames b s rest).
Proof.
  revert s rest; induction b as [|b IH]; intros s rest; [constructor|].
  destruct rest as [|a r]; [constructor|].
  cbn [consecutive_frames]; constructor; [|apply IH].
  split; [reflexivity|]; apply length_pad8; cbn [length].
  pose proof (length_firstn_le 7 (a :: r)); lia.
Qed.

Lemma consecutive_frames_data (b s i : nat) (rest : list nat) (f : can_frame) :
  nth_error (consecutive_frames b s rest) i = Some f ->
  i < b /\
  data f = pad8 (CONSECUTIVE_FRAME + (s + i) mod 16 :: firstn 7 (skipn (7 * i) rest)).
Proof.
  revert s i rest; induction b as [|b IH]; intros s i rest H.
  - destruct i; discriminate.
  - destruct rest as [|a r]; [destruct i; discriminate|].
    destruct i as [|i]; cbn [consecutive_frames nth_error] in H.
    + injection H as <-; rewrite Nat.add_0_r; split; [lia|reflexivity].
    + apply IH in H as [Hi ->]; split; [lia|].
      rewrite Nat.add_succ_r, skipn_skipn.
      replace (7 * i + 7) with (7 * S i) by lia; reflexivity.
Qed.

Lemma firstn_length_app (l r : list nat) : firstn (length l) (l ++ r) = l.
Proof.
  rewrite firstn_app, firstn_all, Nat.sub_diag; simpl; apply app_nil_r.
Qed.

Lemma pad8_cons2 (a b : nat) (l : list nat) :
  pad8 (a :: b :: l) = a :: b :: (l ++ repeat 0 (6 - length l)).
Proof. reflexivity. Qed.

Lemma reassemble_sendBytes (payload : list nat) :
  length payload <= MAX_PAYLOAD -> reassemble (sendBytes payload) = Some payload.
Proof.
  intros H; unfold MAX_PAYLOAD in H.
  destruct (collect_consecutive_frames 7 1 (skipn 6 payload)) as [pad Hpad].
  { rewrite length_skipn; lia. }
  unfold sendBytes, reassemble, first_frame, out_frame; cbn [data].
  rewrite pad8_cons2, Nat.eqb_refl, Hpad.
  rewrite firstn_pad by apply length_firstn_le.
  rewrite <- app_assoc, split_pad by (rewrite length_firstn; lia).
  f_equal; apply firstn_length_app.
Qed.

Lemma transmit_cases (st : IC) (pl : list nat) :
  transmit st pl = (st, Rejected TooLong) \/
  (length pl <= MAX_PAYLOAD /\
   transmit st pl = (mk_ic (current_page st) pl (length pl) (sent st ++ sendBytes pl), Sent)).
Proof.
  unfold transmit; destruct (Nat.ltb_spec MAX_PAYLOAD (length pl)); [left|right]; auto.
Qed.

(** Every encode call either leaves the object untouched with a rejection,
    or places one payload of at most 55 bytes and sends it. *)
Lemma run_call_cases (getChecksum : nat -> list nat -> nat) (st : IC) (call : encode_call) :
  (exists e, run_call getChecksum st call = (st, Rejected e)) \/
  (exists pl, length pl <= MAX_PAYLOAD /\
     run_call getChecksum st call =
       (mk_ic (current_page st) pl (length pl) (sent st ++ sendBytes pl), Sent)).
Proof.
  destruct call; cbn [run_call];
    unfold setHeader, setBody, setBodyTel, initPage;
    repeat match goal with
    | |- context [if ?b then _ else _] => destruct b
    end;
    first [ left; eexists; reflexivity
          | match goal with
            | |- context [transmit st ?pl] =>
                destruct (transmit_cases st pl) as [E|[Hl E]]; rewrite E;
                [left; eexists; reflexivity | right; exists pl; auto]
            end ].
Qed.

Lemma run_call_page (getChecksum : nat -> list nat -> nat) (st : IC) (call : encode_call) :
  current_page (fst (run_call getChecksum st call)) = current_page st.
Proof.
  destruct (run_call_cases getChecksum st call) as [[e E]|[pl [_ E]]]; rewrite E; reflexivity.
Qed.

Lemma run_calls_page (getChecksum : nat -> list nat -> nat) (st : IC) (calls : list encode_call) :
  current_page (run_calls getChecksum st calls) = current_page st.
Proof.
  revert st; induction calls as [|c cs IH]; intros st; [reflexivity|].
  cbn [run_calls]; rewrite IH; apply run_call_page.
Qed.

Lemma crash_glyph_in (t : string) (c : nat) :
  In c (cstr_bytes t) -> widthOf c = CRASH_WIDTH -> has_crash_glyph t = true.
Proof.
  intros Hin Hw; apply existsb_exists; exists c; split; [exact Hin|].
  unfold is_crash_glyph; rewrite Hw; reflexivity.
Qed.

Lemma run_call_crash (getChecksum : nat -> list nat -> nat) (st : IC) (call : encode_call) (t : string) :
  In t (call_texts call) -> has_crash_glyph t = true ->
  run_call getChecksum st call = (st, Rejected CrashGlyph).
Proof.
  intros Hin Hc; destruct call; cbn [call_texts run_call] in *;
    unfold setHeader, setBody, setBodyTel, initPage.
  - destruct Hin as [<-|[]]; rewrite Hc; reflexivity.
  - destruct Hin as [<-|[]]; rewrite Hc; reflexivity.
  - replace (existsb has_crash_glyph [l1; l2; l3; l4]) with true; [reflexivity|].
    symmetry; apply existsb_exists; eauto.
  - destruct Hin as [<-|[]]; rewrite Hc; reflexivity.
Qed.

(** Checking a boolean property on every character code. *)
Lemma forall_codes (P : nat -> bool) :
  forallb P (seq 0 256) = true -> forall c, c < 256 -> P c = true.
Proof.
  intros H c Hc; rewrite forallb_forall in H; apply H, in_seq; lia.
Qed.

Lemma widthOf_high (c : nat) : 256 <= c -> widthOf c = 0.
Proof.
  intros H; unfold widthOf; apply nth_overflow; exact H.
Qed.

(** ** Claims *)

(** C1: [can_fit_body_text text] holds exactly when the sum of
    [widthOf(c)+1] over the characters of [text] is at most the display
    width of 56 pixels; a text summing to exactly 56 ("AAAAAAA") is
    accepted and one summing to 57 ("AAAAAAg") is rejected. *)
Theorem can_fit_body_text_spec :
  (forall text : string,
     can_fit_body_text text = true <-> pixel_sum (cstr_bytes text) <= DISPLAY_WIDTH_PX) /\
  pixel_sum (cstr_bytes "AAAAAAA"%string) = 56 /\
  can_fit_body_text "AAAAAAA"%string = true /\
  pixel_sum (cstr_bytes "AAAAAAg"%string) = 57 /\
  can_fit_body_text "AAAAAAg"%string = false.
Proof.
  split; [|repeat split; reflexivity].
  intros text; unfold can_fit_body_text.
  rewrite text_width_from_sum, Nat.leb_le; simpl; tauto.
Qed.

(** C2: for a payload of at most 55 bytes, [sendBytes] produces 1 frame
    when the length L is at most 6 and ceil((L-6)/7)+1 frames otherwise,
    never more than 8; every frame is an 8-byte frame on [SEND_CAN_ID];
    the first frame holds the frame type, the total length and the first
    6 payload bytes, and the i-th consecutive frame holds the sequence
    byte 0x20+i and the next 7 payload bytes. *)
Theorem sendBytes_frame_count (payload : list nat) :
  length payload <= MAX_PAYLOAD ->
  length (sendBytes payload) =
    (if length payload <=? 6 then 1 else ceil_div (length payload - 6) 7 + 1) /\
  length (sendBytes payload) <= 8 /\
  Forall (fun f => can_id f = SEND_CAN_ID /\ length (data f) = 8) (sendBytes payload) /\
  hd_error (sendBytes payload) = Some (first_frame payload) /\
  data (first_frame payload) =
    pad8 (FIRST_FRAME :: length payload :: firstn 6 payload) /\
  (forall i f, nth_error (sendBytes payload) (S i) = Some f ->
     data f = pad8 (CONSECUTIVE_FRAME + S i :: firstn 7 (skipn (6 + 7 * i) payload))).
Proof.
  intros H; unfold MAX_PAYLOAD in H.
  assert (Hc : length (sendBytes payload) = 1 + (length payload - 6 + 6) / 7).
  { unfold sendBytes; rewrite length_cons, length_consecutive_frames, length_skipn.
    rewrite Nat.min_r; [reflexivity|].
    transitivity (55 / 7); [apply Nat.Div0.div_le_mono; lia|simpl; lia]. }
  assert (Hle : (length payload - 6 + 6) / 7 <= 7)
    by (transitivity (55 / 7); [apply Nat.Div0.div_le_mono; lia|simpl; lia]).
  split; [|split; [|split; [|split; [|split]]]].
  - rewrite Hc; unfold ceil_div.
    destruct (Nat.leb_spec (length payload) 6).
    + replace (length payload - 6) with 0 by lia; reflexivity.
    + replace (length payload - 6 + 7 - 1) with (length payload - 6 + 6) by lia; lia.
  - lia.
  - unfold sendBytes; constructor; [|apply consecutive_frames_shape].
    split; [reflexivity|]; apply length_pad8; cbn [length].
    pose proof (length_firstn_le 6 payload); lia.
  - reflexivity.
  - reflexivity.
  - intros i f Hf; unfold sendBytes in Hf; cbn [nth_error] in Hf.
    apply consecutive_frames_data in Hf as [Hi ->].
    rewrite skipn_skipn, Nat.mod_small by lia.
    replace (7 * i + 6) with (6 + 7 * i) by lia; reflexivity.
Qed.

(** C3: the payload reassembled, in frame order, from the frames
    [sendBytes] produces is the original payload, for every payload of at
    most 55 bytes; in particular the header package for page Audio with
    centered text "Now Playing" is sent, and the frames sent for it
    reassemble to the encoded payload including its checksum byte. *)
Theorem sendBytes_roundtrip :
  (forall payload : list nat,
     length payload <= MAX_PAYLOAD -> reassemble (sendBytes payload) = Some payload) /\
  (forall (getChecksum : nat -> list nat -> nat) (st : IC),
     let content := [page_code AUDIO; PKG_HEADER; centering_flag true]
                      ++ cstr_bytes "Now Playing"%string in
     exists st',
       setHeader getChecksum st AUDIO "Now Playing"%string true = (st', Sent) /\
       buffer st' = content ++ [getChecksum (length content) content] /\
       sent st' = sent st ++ sendBytes (buffer st') /\
       reassemble (skipn (length (sent st)) (sent st')) = Some (buffer st')).
Proof.
  split; [exact reassemble_sendBytes|].
  intros getChecksum st content.
  eexists; split; [reflexivity|].
  split; [reflexivity|]; split; [reflexivity|].
  cbn [sent buffer]; rewrite skipn_app, skipn_all, Nat.sub_diag; cbn [app skipn].
  apply reassemble_sendBytes; unfold MAX_PAYLOAD; simpl; lia.
Qed.

(** Witness of C3 at a 20-byte payload and a concrete checksum rule. *)
Lemma sendBytes_roundtrip_witness :
  reassemble (sendBytes (seq 1 20)) = Some (seq 1 20) /\
  exists st',
    setHeader (fun n _ => n) (IC_init AUDIO) AUDIO "Now Playing"%string true = (st', Sent) /\
    reassemble (sent st') = Some (buffer st').
Proof.
  destruct sendBytes_roundtrip as [H1 H2]; split.
  - apply H1; unfold MAX_PAYLOAD; simpl; lia.
  - destruct (H2 (fun n _ => n) (IC_init AUDIO)) as [st' [E [_ [_ R]]]].
    exists st'; split; [exact E|exact R].
Defined.

(** Witness of C2 at a 20-byte payload: 3 frames. *)
Lemma sendBytes_frame_count_witness :
  length (sendBytes (seq 1 20)) = 3.
Proof.
  destruct (sendBytes_frame_count (seq 1 20)) as [H _].
  - unfold MAX_PAYLOAD; simpl; lia.
  - rewrite H; reflexivity.
Defined.

(** C10: a text containing the crash character (code 126, table width 99)
    never fits the body, because that character alone contributes
    99+1 = 100 pixels, more than the 56-pixel width. *)
Theorem crash_glyph_never_fits (text : string) :
  In 126 (cstr_bytes text) ->
  widthOf 126 = CRASH_WIDTH /\ can_fit_body_text text = false.
Proof.
  intros H; split; [reflexivity|].
  apply pixel_sum_In in H.
  unfold can_fit_body_text; rewrite text_width_from_sum, Nat.leb_gt.
  change (widthOf 126) with 99 in H; unfold DISPLAY_WIDTH_PX; lia.
Qed.

Lemma crash_glyph_never_fits_witness :
  can_fit_body_text "Now ~ Playing"%string = false.
Proof.
  apply (crash_glyph_never_fits "Now ~ Playing"%string); simpl; tauto.
Defined.

(** C4: if any text argument of an encode call ([setHeader], [setBody],
    [setBodyTel], [initPage]) contains a character whose table width is
    the reserved value 99, the call is rejected before encoding and the
    object, in particular the list of frames sent, is left unchanged;
    conversely a call that sends carries no such character in its text. *)
Theorem encode_rejects_crash_glyph (getChecksum : nat -> list nat -> nat)
  (st : IC) (call : encode_call) :
  (forall t c, In t (call_texts call) -> In c (cstr_bytes t) -> widthOf c = CRASH_WIDTH ->
     run_call getChecksum st call = (st, Rejected CrashGlyph) /\
     sent (fst (run_call getChecksum st call)) = sent st) /\
  (snd (run_call getChecksum st call) = Sent ->
     forall t c, In t (call_texts call) -> In c (cstr_bytes t) -> widthOf c <> CRASH_WIDTH).
Proof.
  split.
  - intros t c Ht Hc Hw.
    rewrite (run_call_crash getChecksum st call t Ht (crash_glyph_in t c Hc Hw)).
    split; reflexivity.
  - intros Hs t c Ht Hc Hw.
    rewrite (run_call_crash getChecksum st call t Ht (crash_glyph_in t c Hc Hw)) in Hs.
    discriminate.
Qed.

Lemma encode_rejects_crash_glyph_witness :
  setBody (fun n _ => n) (IC_init AUDIO) AUDIO "~"%string true
    = (IC_init AUDIO, Rejected CrashGlyph).
Proof.
  destruct (encode_rejects_crash_glyph (fun n _ => n) (IC_init AUDIO)
              (CallBody AUDIO "~"%string true)) as [H _].
  apply (H "~"%string 126); simpl; auto.
Defined.

(** C5: the payload-buffer invariant ([buffer_size] is the number of bytes
    placed in [buffer] and at most 55) holds initially and is preserved by
    every encode call and by [processIcResponse]; when a call sends, the
    length field of its first frame is [buffer_size]. *)
Theorem encode_preserves_buffer_ok (getChecksum : nat -> list nat -> nat)
  (declared_page : list nat -> option PAGE) (st : IC) (call : encode_call)
  (r : can_frame) :
  buffer_ok st ->
  let st' := fst (run_call getChecksum st call) in
  buffer_ok (IC_init (current_page st)) /\
  buffer_ok st' /\
  buffer_ok (processIcResponse declared_page st r) /\
  (snd (run_call getChecksum st call) = Sent ->
     exists rest, sent st' = sent st ++ first_frame (buffer st') :: rest /\
       nth 1 (data (first_frame (buffer st'))) 0 = buffer_size st' /\
       buffer_size st' = length (buffer st')).
Proof.
  intros Hok st'.
  split; [unfold buffer_ok, MAX_PAYLOAD; simpl; lia|].
  split; [|split].
  - subst st'; destruct (run_call_cases getChecksum st call) as [[e E]|[pl [Hl E]]];
      rewrite E; [exact Hok|]; unfold buffer_ok; simpl; auto.
  - unfold processIcResponse.
    destruct (can_id r =? RECEIVE_CAN_ID); [|exact Hok].
    destruct (declared_page (data r)); exact Hok.
  - intros Hs; subst st'.
    destruct (run_call_cases getChecksum st call) as [[e E]|[pl [Hl E]]];
      rewrite E in *; [discriminate|].
    cbn [fst sent buffer buffer_size].
    exists (consecutive_frames 7 1 (skipn 6 pl)); split; [reflexivity|].
    split; reflexivity.
Qed.

Lemma encode_preserves_buffer_ok_witness :
  buffer_ok (fst (setHeader (fun n _ => n) (IC_init AUDIO) AUDIO "Now Playing"%string true)).
Proof.
  destruct (encode_preserves_buffer_ok (fun n _ => n) (fun _ => None) (IC_init AUDIO)
              (CallHeader AUDIO "Now Playing"%string true) (mk_frame RECEIVE_CAN_ID 8 []))
    as [_ [H _]].
  - unfold buffer_ok, MAX_PAYLOAD; simpl; lia.
  - exact H.
Defined.

(** C6: with [current_page] Audio, a frame on [RECEIVE_CAN_ID] that
    declares the Telephone page sets [current_page] to Telephone; it stays
    Telephone through any further encode calls, and a body package sent
    to the current page after them targets the Telephone page code. *)
Theorem processIcResponse_telephone (declared_page : list nat -> option PAGE)
  (getChecksum : nat -> list nat -> nat) (st : IC) (r : can_frame) :
  current_page st = AUDIO ->
  can_id r = RECEIVE_CAN_ID ->
  declared_page (data r) = Some TELEPHONE ->
  let st' := processIcResponse declared_page st r in
  current_page st' = TELEPHONE /\
  (forall calls, current_page (run_calls getChecksum st' calls) = TELEPHONE) /\
  (forall calls text c st'',
     let st2 := run_calls getChecksum st' calls in
     setBody getChecksum st2 (current_page st2) text c = (st'', Sent) ->
     hd_error (buffer st'') = Some (page_code TELEPHONE)).
Proof.
  intros _ Hid Hp st'.
  assert (H1 : current_page st' = TELEPHONE).
  { subst st'; unfold processIcResponse; rewrite Hid, Nat.eqb_refl, Hp; reflexivity. }
  split; [exact H1|].
  assert (H2 : forall calls, current_page (run_calls getChecksum st' calls) = TELEPHONE).
  { intros calls; rewrite run_calls_page; exact H1. }
  split; [exact H2|].
  intros calls text c st'' st2 Hs; subst st2; rewrite H2 in Hs.
  unfold setBody in Hs; destruct (has_crash_glyph text); [discriminate|].
  match type of Hs with transmit ?s ?pl = _ =>
    destruct (transmit_cases s pl) as [E|[_ E]]; rewrite E in Hs end;
  [discriminate|].
  injection Hs as <-; reflexivity.
Qed.

Lemma processIcResponse_telephone_witness :
  current_page (processIcResponse (fun _ => Some TELEPHONE) (IC_init AUDIO)
                  (mk_frame RECEIVE_CAN_ID 8 [0; 0; 0; 0; 0; 0; 0; 0])) = TELEPHONE.
Proof.
  apply (processIcResponse_telephone (fun _ => Some TELEPHONE) (fun n _ => n));
    reflexivity.
Defined.

(** C7: [setBodyTel] (the multi-line body package) is rejected, and
    nothing is sent, whenever the page it targets, the current page, is
    not the Telephone page. *)
Theorem setBodyTel_rejects_non_telephone (getChecksum : nat -> list nat -> nat)
  (st : IC) (line1 line2 line3 line4 : string) :
  current_page st <> TELEPHONE ->
  exists e, setBodyTel getChecksum st line1 line2 line3 line4 = (st, Rejected e).
Proof.
  intros Hp; unfold setBodyTel.
  destruct (existsb has_crash_glyph _); [eexists; reflexivity|].
  destruct (current_page st) eqn:Ep; [| congruence |]; eexists; reflexivity.
Qed.

Lemma setBodyTel_rejects_non_telephone_witness :
  fst (setBodyTel (fun n _ => n) (IC_init AUDIO) "a" "b" "c" "d") = IC_init AUDIO /\
  snd (setBodyTel (fun n _ => n) (IC_init AUDIO) "a" "b" "c" "d") <> Sent.
Proof.
  destruct (setBodyTel_rejects_non_telephone (fun n _ => n) (IC_init AUDIO)
              "a" "b" "c" "d") as [e E].
  - discriminate.
  - rewrite E; split; [reflexivity|discriminate].
Defined.

(** C8: a frame that [processIcResponse] does not recognise (another
    identifier, or no page declared) leaves the object unchanged; the
    method has no error result. *)
Theorem processIcResponse_ignores_unrecognised (declared_page : list nat -> option PAGE)
  (st : IC) (r : can_frame) :
  can_id r <> RECEIVE_CAN_ID \/ declared_page (data r) = None ->
  processIcResponse declared_page st r = st.
Proof.
  intros H; unfold processIcResponse.
  destruct (Nat.eqb_spec (can_id r) RECEIVE_CAN_ID) as [E|E]; [|reflexivity].
  destruct H as [H | ->]; [contradiction|reflexivity].
Qed.

Lemma processIcResponse_ignores_unrecognised_witness :
  processIcResponse (fun _ => Some TELEPHONE) (IC_init AUDIO) (mk_frame SEND_CAN_ID 8 [])
    = IC_init AUDIO.
Proof.
  apply processIcResponse_ignores_unrecognised; left; discriminate.
Defined.

(** C9 (as stated, refuted): code 11, a control code outside the
    printable range, has width 7 in [CHAR_WIDTHS], so not every code
    outside the printable set maps to width 0. *)
Lemma CHAR_WIDTHS_nonprintable_nonzero :
  ~ (forall c, c < 256 -> is_printable c = false -> widthOf c = 0).
Proof.
  intros H.
  assert (H11 : widthOf 11 = 0) by (apply H; [lia|reflexivity]).
  change (widthOf 11) with 7 in H11; discriminate.
Qed.

(** C9 (amended): the table has 256 entries; every entry is in 0..11
    except exactly the entry of code 126, which is 99; codes 138 and above
    have width 0; and the codes outside the printable range 0x20..0x7E with
    a nonzero width are exactly 11, 12, 17-25, 28-31 and 128-137. *)
Theorem CHAR_WIDTHS_ranges :
  length CHAR_WIDTHS = 256 /\
  (forall c, widthOf c = CRASH_WIDTH <-> c = 126) /\
  (forall c, c <> 126 -> widthOf c <= 11) /\
  (forall c, 138 <= c -> widthOf c = 0) /\
  (forall c, c < 256 -> is_printable c = false ->
     (widthOf c <> 0 <->
      (11 <= c <= 12 \/ 17 <= c <= 25 \/ 28 <= c <= 31 \/ 128 <= c <= 137))).
Proof.
  split; [reflexivity|].
  split; [|split; [|split]].
  - intros c; split; [|intros ->; reflexivity].
    destruct (Nat.lt_ge_cases c 256) as [Hc|Hc]; [|rewrite widthOf_high by exact Hc; discriminate].
    pose proof (forall_codes (fun c => negb (widthOf c =? CRASH_WIDTH) || (c =? 126))
                  ltac:(vm_compute; reflexivity) c Hc) as Hb; cbv beta in Hb.
    intros Hw; rewrite Hw in Hb; simpl in Hb; apply Nat.eqb_eq; exact Hb.
  - intros c Hn.
    destruct (Nat.lt_ge_cases c 256) as [Hc|Hc]; [|rewrite widthOf_high by exact Hc; lia].
    pose proof (forall_codes (fun c => (c =? 126) || (widthOf c <=? 11))
                  ltac:(vm_compute; reflexivity) c Hc) as Hb; cbv beta in Hb.
    apply Nat.eqb_neq in Hn; rewrite Hn in Hb; apply Nat.leb_le; exact Hb.
  - intros c Hc.
    destruct (Nat.lt_ge_cases c 256) as [Hc'|Hc']; [|apply widthOf_high; exact Hc'].
    pose proof (forall_codes (fun c => (c <? 138) || (widthOf c =? 0))
                  ltac:(vm_compute; reflexivity) c Hc') as Hb; cbv beta in Hb.
    apply Nat.ltb_ge in Hc; rewrite Hc in Hb; apply Nat.eqb_eq; exact Hb.
  - intros c Hc Hp.
    pose proof (forall_codes (fun c => is_printable c ||
                  Bool.eqb (negb (widthOf c =? 0))
                    (((11 <=? c) && (c <=? 12)) || ((17 <=? c) && (c <=? 25)) ||
                     ((28 <=? c) && (c <=? 31)) || ((128 <=? c) && (c <=? 137))))
                  ltac:(vm_compute; reflexivity) c Hc) as Hb; cbv beta in Hb.
    rewrite Hp, Bool.orb_false_l in Hb; apply Bool.eqb_prop in Hb.
    rewrite <- Nat.eqb_neq, <- Bool.negb_true_iff, Hb.
    repeat rewrite Bool.orb_true_iff; repeat rewrite Bool.andb_true_iff;
      repeat rewrite Nat.leb_le; tauto.
Qed.

Lemma CHAR_WIDTHS_ranges_witness :
  widthOf 87 <= 11 /\ widthOf 200 = 0 /\ widthOf 130 <> 0.
Proof.
  destruct CHAR_WIDTHS_ranges as [_ [_ [H3 [H4 H5]]]].
  split; [apply H3; discriminate|split; [apply H4; lia|]].
  apply H5; [lia|reflexivity|right; right; right; lia].
Defined.

(** ** Further properties of the table, the fit check and the tracker *)

Lemma cstr_bytes_app_prefix (a b : string) :
  exists suffix, cstr_bytes (a ++ b) = cstr_bytes a ++ suffix.
Proof.
  induction a as [|x r IH]; simpl.
  - exists (cstr_bytes b); reflexivity.
  - destruct (nat_of_ascii x =? 0); [exists []; reflexivity|].
    destruct IH as [suffix ->]; exists suffix; reflexivity.
Qed.


Lemma pixel_sum_app (l r : list nat) : pixel_sum (l ++ r) = pixel_sum l + pixel_sum r.
Proof. induction l as [|c l IH]; simpl; lia. Qed.

Lemma can_fit_pixel_sum (text : string) :
  can_fit_body_text text = (pixel_sum (cstr_bytes text) <=? DISPLAY_WIDTH_PX).
Proof. unfold can_fit_body_text; rewrite text_width_from_sum; reflexivity. Qed.

Lemma widthOf_nonzero_ge2 (c : nat) : widthOf c <> 0 -> 2 <= widthOf c.
Proof.
  intros H; destruct (Nat.lt_ge_cases c 256) as [Hc|Hc];
    [|rewrite widthOf_high in H by exact Hc; contradiction].
  pose proof (forall_codes (fun c => (widthOf c =? 0) || (2 <=? widthOf c))
                ltac:(vm_compute; reflexivity) c Hc) as Hb; cbv beta in Hb.
  apply Nat.eqb_neq in H; rewrite H in Hb; apply Nat.leb_le; exact Hb.
Qed.

Lemma widthOf_digit (c : nat) : is_digit c = true -> widthOf c = 7.
Proof.
  intros Hd.
  assert (Hc : c < 256).
  { unfold is_digit in Hd; apply andb_prop in Hd as [_ H2]; apply Nat.leb_le in H2; lia. }
  pose proof (forall_codes (fun c => negb (is_digit c) || (widthOf c =? 7))
                ltac:(vm_compute; reflexivity) c Hc) as Hb; cbv beta in Hb.
  rewrite Hd in Hb; apply Nat.eqb_eq; exact Hb.
Qed.

Lemma processIcResponse_fields (declared_page : list nat -> option PAGE) (st : IC) (r : can_frame) :
  current_page (processIcResponse declared_page st r) =
    match frame_page declared_page r with Some p => p | None => current_page st end /\
  buffer (processIcResponse declared_page st r) = buffer st /\
  buffer_size (processIcResponse declared_page st r) = buffer_size st /\
  sent (processIcResponse declared_page st r) = sent st.
Proof.
  unfold processIcResponse, frame_page.
  destruct (can_id r =? RECEIVE_CAN_ID); [|auto].
  destruct (declared_page (data r)); auto.
Qed.

Lemma process_frames_foreign (declared_page : list nat -> option PAGE) (st : IC)
  (rs : list can_frame) :
  Forall (fun f => can_id f = SEND_CAN_ID) rs -> process_frames declared_page st rs = st.
Proof.
  intros H; induction H as [|r rs Hr _ IH]; [reflexivity|].
  cbn [process_frames].
  replace (processIcResponse declared_page st r) with st; [exact IH|].
  unfold processIcResponse; rewrite Hr; reflexivity.
Qed.

Lemma sendBytes_ids (payload : list nat) :
  Forall (fun f => can_id f = SEND_CAN_ID) (sendBytes payload).
Proof.
  unfold sendBytes; constructor; [reflexivity|].
  eapply Forall_impl; [|apply (consecutive_frames_shape 7 1 (skipn 6 payload))].
  intros f [H _]; exact H.
Qed.

(** X1: the printable characters (0x20..0x7E) that [CHAR_WIDTHS] gives
    width 0 are exactly 'N' (78) and 'O' (79). *)
Theorem printable_zero_width (c : nat) :
  is_printable c = true -> (widthOf c = 0 <-> c = 78 \/ c = 79).
Proof.
  intros Hp.
  assert (Hc : c < 256).
  { unfold is_printable in Hp; apply andb_prop in Hp as [_ H2];
      apply Nat.leb_le in H2; lia. }
  pose proof (forall_codes (fun c => negb (is_printable c) ||
                Bool.eqb (widthOf c =? 0) ((c =? 78) || (c =? 79)))
                ltac:(vm_compute; reflexivity) c Hc) as Hb; cbv beta in Hb.
  rewrite Hp in Hb; cbn [negb orb] in Hb; apply Bool.eqb_prop in Hb.
  rewrite <- Nat.eqb_eq, Hb, Bool.orb_true_iff, !Nat.eqb_eq; tauto.
Qed.

Lemma printable_zero_width_witness : widthOf 78 = 0 /\ widthOf 79 = 0.
Proof.
  split; [apply (printable_zero_width 78 eq_refl) | apply (printable_zero_width 79 eq_refl)]; auto.
Defined.


(** X3: if a text fits the body, every prefix of it fits too, so trimming
    characters from the end never makes a fitting text stop fitting. *)
Theorem can_fit_prefix (a b : string) :
  can_fit_body_text (a ++ b) = true -> can_fit_body_text a = true.
Proof.
  rewrite !can_fit_pixel_sum, !Nat.leb_le.
  destruct (cstr_bytes_app_prefix a b) as [suffix ->].
  rewrite pixel_sum_app; lia.
Qed.

Lemma can_fit_prefix_witness : can_fit_body_text "Now"%string = true.
Proof.
  apply (can_fit_prefix "Now"%string " Pl"%string); reflexivity.
Defined.


(** X5: every decimal digit has width 7, so a text of digits only fits the
    body exactly when it has at most 7 characters. *)
Theorem digit_text_fit (text : string) :
  forallb is_digit (cstr_bytes text) = true ->
  (forall c, In c (cstr_bytes text) -> widthOf c = 7) /\
  (can_fit_body_text text = true <-> length (cstr_bytes text) <= 7).
Proof.
  intros H; rewrite forallb_forall in H.
  assert (Hw : forall c, In c (cstr_bytes text) -> widthOf c = 7)
    by (intros c Hc; apply widthOf_digit, H, Hc).
  split; [exact Hw|].
  assert (Hs : pixel_sum (cstr_bytes text) = 8 * length (cstr_bytes text)).
  { clear H; induction (cstr_bytes text) as [|c l IH]; [reflexivity|].
    cbn [pixel_sum length]; rewrite Hw by (left; reflexivity).
    rewrite IH by (intros d Hd; apply Hw; right; exact Hd); lia. }
  rewrite can_fit_pixel_sum, Nat.leb_le, Hs; unfold DISPLAY_WIDTH_PX; lia.
Qed.

Lemma digit_text_fit_witness :
  can_fit_body_text "1234567"%string = true /\ can_fit_body_text "12345678"%string = false.
Proof.
  split.
  - apply (digit_text_fit "1234567"%string eq_refl); simpl; lia.
  - apply Bool.not_true_iff_false; intros Hf.
    apply (digit_text_fit "12345678"%string eq_refl) in Hf; simpl in Hf; lia.
Defined.

(** X6: every glyph with a nonzero width is at least 2 pixels wide, so a
    fitting text made of such characters has at most 18 characters; 18
    full stops fit. *)
Theorem visible_text_max_length (text : string) :
  can_fit_body_text text = true ->
  (forall c, In c (cstr_bytes text) -> widthOf c <> 0) ->
  length (cstr_bytes text) <= 18.
Proof.
  rewrite can_fit_pixel_sum, Nat.leb_le; unfold DISPLAY_WIDTH_PX.
  intros Hfit Hnz.
  assert (3 * length (cstr_bytes text) <= pixel_sum (cstr_bytes text)).
  { clear Hfit; induction (cstr_bytes text) as [|c l IH]; [simpl; lia|].
    cbn [pixel_sum length].
    pose proof (widthOf_nonzero_ge2 c (Hnz c (or_introl eq_refl))).
    specialize (IH (fun d Hd => Hnz d (or_intror Hd))); lia. }
  lia.
Qed.

Lemma visible_text_max_length_witness :
  length (cstr_bytes ".................."%string) <= 18.
Proof.
  apply visible_text_max_length; [reflexivity|].
  intros c Hc; simpl in Hc; repeat destruct Hc as [<-|Hc]; [discriminate ..|contradiction].
Defined.

(** X7: draining a sequence of frames through [processIcResponse] leaves
    [current_page] at the page declared by the last recognised frame (or
    unchanged when none is recognised) and never touches the payload
    buffer or the frames sent. *)
Theorem process_frames_last_writer (declared_page : list nat -> option PAGE)
  (st : IC) (rs : list can_frame) :
  current_page (process_frames declared_page st rs) =
    match last_declared declared_page rs with Some p => p | None => current_page st end /\
  buffer (process_frames declared_page st rs) = buffer st /\
  buffer_size (process_frames declared_page st rs) = buffer_size st /\
  sent (process_frames declared_page st rs) = sent st.
Proof.
  revert st; induction rs as [|r rs IH]; intros st; [auto|].
  cbn [process_frames last_declared].
  destruct (IH (processIcResponse declared_page st r)) as [Hp [Hb [Hs Hsent]]].
  destruct (processIcResponse_fields declared_page st r) as [Fp [Fb [Fs Fsent]]].
  rewrite Hp, Hb, Hs, Hsent, Fp, Fb, Fs, Fsent.
  split; [|auto].
  destruct (last_declared declared_page rs); reflexivity.
Qed.

(** X8: the CAN identifiers are distinct 11-bit identifiers, and the frames
    an encode call sends, fed back to the tracker, change nothing: the
    object never reacts to its own traffic. *)
Theorem own_frames_ignored (declared_page : list nat -> option PAGE)
  (getChecksum : nat -> list nat -> nat) (st : IC) (call : encode_call) :
  let st' := fst (run_call getChecksum st call) in
  SEND_CAN_ID <> RECEIVE_CAN_ID /\ SEND_CAN_ID < 0x800 /\ RECEIVE_CAN_ID < 0x800 /\
  process_frames declared_page st' (skipn (length (sent st)) (sent st')) = st'.
Proof.
  intros st'; split; [discriminate|split; [unfold SEND_CAN_ID; lia|split; [unfold RECEIVE_CAN_ID; lia|]]].
  apply process_frames_foreign; subst st'.
  destruct (run_call_cases getChecksum st call) as [[e E]|[pl [_ E]]]; rewrite E;
    cbn [fst sent].
  - rewrite skipn_all; constructor.
  - rewrite skipn_app, skipn_all, Nat.sub_diag; cbn [app skipn]; apply sendBytes_ids.
Qed.

